(** * backend/main.py: login gate and conversation ledger

    A shallow embedding of the FastAPI service in [backend/main.py].

    - The SQLite database is an explicit value [DB] threaded through the
      handlers; every table is the list of its rows in insertion order.
    - [datetime.utcnow()] is an explicit argument [now], a [datetime]
      counted in microseconds since the epoch.
    - [raise HTTPException(status_code=n)] is the left summand of a
      handler's result.
    - The three libraries the module calls (python-jose, passlib and the
      SQL engine behind SQLAlchemy) are interfaces, given as type classes
      with the laws the handlers rely on; a concrete instance of each is
      built as well, and the statements are run on it.
    - Integers are [Z], as Python's are.  What SQLite can bind (signed
      64-bit, [sqlite_integer]) and what a [datetime] can hold (years 1 to
      9999, [representable]) are predicates; outside them the driver or
      the addition raises and the request is answered 500, so a statement
      about the answer of a POST, a GET or a login takes them as
      hypotheses.
    - A role or content is stored as submitted, SQLite keeping no length
      for VARCHAR. *)

From Stdlib Require Import ZArith List String Ascii Bool Lia.
From Stdlib Require Import Permutation Sorted DecimalString DecimalZ.
Import ListNotations.

Local Open Scope Z_scope.
Local Open Scope string_scope.

Set Implicit Arguments.

(** ** Time *)

Definition datetime := Z.

Definition MICROSECOND : Z := 1000000.

(** [timedelta(hours=h)], in microseconds. *)
Definition timedelta_hours (h : Z) : Z := h * 3600 * MICROSECOND.

(** [calendar.timegm(dt.utctimetuple())]: whole seconds since the epoch,
    the sub-second part dropped.  python-jose applies it to every
    [datetime] claim it encodes and to the clock it validates against. *)
Definition timegm (dt : datetime) : Z := dt / MICROSECOND.

(** [datetime.min] and [datetime.max]: the first microsecond of year 1 and
    the last of year 9999. *)
Definition datetime_min : Z := -62135596800 * MICROSECOND.
Definition datetime_max : Z := 253402300800 * MICROSECOND - 1.

(** The values a [datetime] can hold; an addition that leaves them raises
    [OverflowError]. *)
Definition representable (dt : Z) : Prop :=
  datetime_min <= dt <= datetime_max.

(** ** Configuration (environment only) *)

(** What [int(text)] makes of the text of a variable: a number, or a
    [ValueError] when the text is not an integer literal. *)
Inductive int_result :=
  | int_value (h : Z)
  | int_ValueError.

Record Environ := {
  env_SECRET_KEY : option string;
  env_JWT_ALGORITHM : option string;
  (** ACCESS_TOKEN_EXPIRE_HOURS as [int(...)] reads it *)
  env_ACCESS_TOKEN_EXPIRE_HOURS : option int_result;
  env_ADMIN_USERNAME : option string;
  env_ADMIN_PASSWORD : option string;
  env_COOKIE_SECURE : option string;
  env_COOKIE_SAMESITE : option string
}.

Record Config := {
  SECRET_KEY : string;
  ALGORITHM : string;
  ACCESS_TOKEN_EXPIRE_HOURS : Z;
  ADMIN_USERNAME : option string;
  ADMIN_PASSWORD : option string;
  COOKIE_SECURE : bool;
  COOKIE_SAMESITE : string
}.

(** [os.getenv(name, default)] *)
Definition getenv {A} (v : option A) (default : A) : A :=
  match v with Some x => x | None => default end.

Definition lower_ascii (c : ascii) : ascii :=
  let n := nat_of_ascii c in
  if (andb (Nat.leb 65 n) (Nat.leb n 90)) then ascii_of_nat (n + 32) else c.

Fixpoint lower (s : string) : string :=
  match s with
  | EmptyString => EmptyString
  | String c r => String (lower_ascii c) (lower r)
  end.

(** Python truthiness of an optional string: [None] and [""] are falsy. *)
Definition truthy (s : option string) : bool :=
  match s with
  | None => false
  | Some s => negb (s =? "")
  end.

(** The two exceptions that stop the module from loading. *)
Inductive ConfigError :=
  | RuntimeError_SECRET_KEY
  | ValueError_ACCESS_TOKEN_EXPIRE_HOURS.

(** The module-level configuration block, in the order it runs: the
    SECRET_KEY test and its
    [RuntimeError("SECRET_KEY must be set in .env")] first, then
    [int(os.getenv("ACCESS_TOKEN_EXPIRE_HOURS", "1"))]. *)
Definition load_config (e : Environ) : ConfigError + Config :=
  if negb (truthy (env_SECRET_KEY e)) then inl RuntimeError_SECRET_KEY
  else
    match getenv (env_ACCESS_TOKEN_EXPIRE_HOURS e) (int_value 1) with
    | int_ValueError => inl ValueError_ACCESS_TOKEN_EXPIRE_HOURS
    | int_value hours =>
        inr {|
          SECRET_KEY := getenv (env_SECRET_KEY e) "";
          ALGORITHM := getenv (env_JWT_ALGORITHM e) "HS256";
          ACCESS_TOKEN_EXPIRE_HOURS := hours;
          ADMIN_USERNAME := env_ADMIN_USERNAME e;
          ADMIN_PASSWORD := env_ADMIN_PASSWORD e;
          COOKIE_SECURE :=
            lower (getenv (env_COOKIE_SECURE e) "true") =? "true";
          COOKIE_SAMESITE := getenv (env_COOKIE_SAMESITE e) "lax"
        |}
    end.

(** ** Cross-origin configuration

    A character is a code point below 256. *)

(** [str.isspace] on one character. *)
Definition isspace (c : ascii) : bool :=
  let n := nat_of_ascii c in
  (Nat.leb 9 n && Nat.leb n 13) || (Nat.leb 28 n && Nat.leb n 32)
  || Nat.eqb n 133 || Nat.eqb n 160.

Fixpoint lstrip (s : string) : string :=
  match s with
  | EmptyString => EmptyString
  | String c rest => if isspace c then lstrip rest else s
  end.

Fixpoint rstrip (s : string) : string :=
  match s with
  | EmptyString => EmptyString
  | String c rest =>
      match rstrip rest with
      | EmptyString => if isspace c then EmptyString else String c EmptyString
      | kept => String c kept
      end
  end.

(** [s.strip()] *)
Definition strip (s : string) : string := rstrip (lstrip s).

(** [s.split(",")]: never the empty list, [[""]] on the empty string. *)
Fixpoint split_comma (s : string) : list string :=
  match s with
  | EmptyString => [EmptyString]
  | String c rest =>
      if Ascii.eqb c ","%char then EmptyString :: split_comma rest
      else
        match split_comma rest with
        | piece :: pieces => String c piece :: pieces
        | [] => [String c EmptyString]
        end
  end.

(** The list comprehension that builds [CORS_ORIGINS], from the value of
    the environment variable of that name. *)
Definition CORS_ORIGINS (value : option string) : list string :=
  map strip
    (filter (fun o => negb (strip o =? ""))
       (split_comma (getenv value ""))).

(** ** Models *)

Module User.
Record t := { id : Z; username : string; password_hash : string }.
End User.

Module Conversation.
Record t := { id : Z }.
End Conversation.

Module Message.
Record t := {
  id : Z;
  conversation_id : Z;
  role : string;
  content : string;
  created_at : datetime
}.
End Message.

(** The length written in the column type of [Message.role],
    [Column(String(20))]. *)
Definition ROLE_COLUMN_LENGTH : nat := 20.

Record DB := {
  users : list User.t;
  conversations : list Conversation.t;
  messages : list Message.t
}.

Definition empty_db : DB :=
  {| users := []; conversations := []; messages := [] |}.

(** The value SQLite gives an INTEGER PRIMARY KEY left unset on insert:
    1 in an empty table, otherwise one more than the largest key in use. *)
Definition next_rowid (ids : list Z) : Z :=
  match ids with
  | [] => 1
  | i :: rest => 1 + fold_left Z.max rest i
  end.

(** The integers SQLite stores and its driver binds: signed 64-bit.
    Binding any other raises [OverflowError] before the statement runs. *)
Definition sqlite_integer (z : Z) : Prop :=
  -9223372036854775808 <= z <= 9223372036854775807.

(** ** Schemas *)

Record MessageCreate := { mc_role : string; mc_content : string }.

Record LoginRequest := { lr_username : string; lr_password : string }.

(** One element of the array [get_messages] returns. *)
Record MessageOut := {
  out_id : Z;
  out_role : string;
  out_content : string;
  out_created_at : datetime
}.

(** ** HTTP *)

Inductive HTTPException := HTTPException_status (status_code : Z).

Definition result (A : Type) : Type := (HTTPException + A)%type.

Record SetCookie := {
  cookie_key : string;
  cookie_value : string;
  cookie_httponly : bool;
  cookie_samesite : string;
  cookie_secure : bool;
  cookie_path : string
}.

Inductive LoginBody := status_ok.

(** What [login] hands back on success: the JSON body and the cookie put on
    the response object. *)
Record LoginResponse := {
  login_body : LoginBody;
  login_set_cookie : option SetCookie
}.

(** ** The storage engine

    [order_by(asc(Message.created_at))] names one sort key and no other.
    What ORDER BY owes is the rows it was given, in ascending order of
    that key; that much is the interface, and what follows from it holds
    of every engine.  The order of rows with equal keys is the engine's
    own; SQLite, the engine the module connects to, is the instance
    [sqlite_engine] below. *)

Definition created_le (a b : Message.t) : Prop :=
  Message.created_at a <= Message.created_at b.

Class StorageEngine := {
  order_by_created_at : list Message.t -> list Message.t;
  order_by_permutation :
    forall rows, Permutation rows (order_by_created_at rows);
  order_by_sorted :
    forall rows, StronglySorted created_le (order_by_created_at rows)
}.

(** ** Security: passlib *)

Class Passlib := {
  (** [pwd_context.hash(password)]; the salt it draws is an argument *)
  pwd_hash : string -> string -> string;
  (** [pwd_context.verify(password, hash)] *)
  pwd_verify : string -> string -> bool;
  pwd_verify_hash : forall password salt,
    pwd_verify password (pwd_hash password salt) = true
}.

(** ** Security: python-jose *)

Record Claims := { sub : string; exp : Z }.

(** A token taken apart: the [alg] of its header, its payload, its
    signature. *)
Record JWS := {
  jws_alg : string;
  jws_payload : Claims;
  jws_signature : string
}.

(** The bytes the signature covers: header and payload. *)
Definition signing_input (j : JWS) : string * Claims :=
  (jws_alg j, jws_payload j).

Class Jose := {
  (** the MAC of a signing input under algorithm [alg] and key [key] *)
  hmac_sign : string -> string -> string * Claims -> string;
  (** compact serialization and its inverse *)
  compact : JWS -> string;
  parse_compact : string -> option JWS;
  parse_compact_of_compact : forall j, parse_compact (compact j) = Some j;
  parse_compact_empty : parse_compact "" = None
}.

(** The exceptions [jwt.decode] raises; the last two are subclasses of
    [JWTError]. *)
Inductive JWTError :=
  | JWTError_base
  | ExpiredSignatureError
  | JWTClaimsError.

Section Jwt.
Context {J : Jose}.

(** [jwt.encode(claims, key, algorithm=alg)], for claims [sub] and [exp]
    with [exp] a [datetime]. *)
Definition jwt_encode (sub_ : string) (exp_ : datetime)
    (key alg : string) : string :=
  let payload := {| sub := sub_; exp := timegm exp_ |} in
  compact {| jws_alg := alg;
             jws_payload := payload;
             jws_signature := hmac_sign alg key (alg, payload) |}.

(** [jwt.decode(token, key, algorithms=algorithms)] run when the clock
    reads [now]. *)
Definition jwt_decode (token key : string) (algorithms : list string)
    (now : datetime) : JWTError + Claims :=
  match parse_compact token with
  | None => inl JWTError_base
  | Some j =>
      if negb (existsb (String.eqb (jws_alg j)) algorithms) then
        inl JWTError_base
      else if negb (jws_signature j =?
                    hmac_sign (jws_alg j) key (signing_input j)) then
        inl JWTError_base
      else if (exp (jws_payload j) <? timegm now)%Z then
        inl ExpiredSignatureError
      else inr (jws_payload j)
  end.
End Jwt.

(** ** The application *)

Definition unauthorized : HTTPException := HTTPException_status 401.

Section App.
Context {E : StorageEngine} {P : Passlib} {J : Jose}.
Variable cfg : Config.

(** [db.query(User).filter_by(username=name).first()] *)
Definition query_user_first (db : DB) (name : string) : option User.t :=
  find (fun u => User.username u =? name) (users db).

(** [db.query(Conversation).filter_by(id=cid).first()] *)
Definition query_conversation_first (db : DB) (cid : Z)
    : option Conversation.t :=
  find (fun c => (Conversation.id c =? cid)%Z) (conversations db).

(** [db.query(Message).filter_by(conversation_id=cid)]: the rows the
    WHERE clause keeps, before any ordering. *)
Definition query_messages (db : DB) (cid : Z) : list Message.t :=
  filter (fun m => (Message.conversation_id m =? cid)%Z) (messages db).

(** The startup hook, [salt] being what [pwd_context.hash] draws.
    [not ADMIN_USERNAME or not ADMIN_PASSWORD] holds when either is unset
    or empty. *)
Definition startup (db : DB) (salt : string) : DB :=
  match ADMIN_USERNAME cfg, ADMIN_PASSWORD cfg with
  | Some name, Some password =>
      if (name =? "") || (password =? "") then db
      else
        match query_user_first db name with
        | Some _ => db
        | None =>
            {| users := users db ++
                 [ {| User.id := next_rowid (map User.id (users db));
                      User.username := name;
                      User.password_hash := pwd_hash password salt |} ];
               conversations := conversations db;
               messages := messages db |}
        end
  | _, _ => db
  end.

(** [session] is the cookie of that name, [None] when the request has
    none; [not session] holds for [None] and for the empty string. *)
Definition require_login (now : datetime) (session : option string)
    : result unit :=
  match session with
  | None => inl unauthorized
  | Some token =>
      if token =? "" then inl unauthorized
      else
        match jwt_decode token (SECRET_KEY cfg) [ALGORITHM cfg] now with
        | inl _ => inl unauthorized
        | inr _ => inr tt
        end
  end.

(** [Depends(require_login)]: the dependency is resolved first and the
    endpoint function is called only with its value. *)
Definition Depends_require_login {A} (now : datetime)
    (session : option string) (endpoint : unit -> A) : result A :=
  match require_login now session with
  | inl e => inl e
  | inr d => inr (endpoint d)
  end.

(** POST /login.  It is the answer when the clock and the clock plus the
    configured hours are [representable]; when the sum is not, the addition
    raises [OverflowError] and the answer is 500. *)
Definition login (db : DB) (now : datetime) (data : LoginRequest)
    : result LoginResponse :=
  match query_user_first db (lr_username data) with
  | None => inl unauthorized
  | Some user =>
      if negb (pwd_verify (lr_password data) (User.password_hash user))
      then inl unauthorized
      else
        let token :=
          jwt_encode (User.username user)
                     (now + timedelta_hours (ACCESS_TOKEN_EXPIRE_HOURS cfg))%Z
                     (SECRET_KEY cfg) (ALGORITHM cfg) in
        inr {| login_body := status_ok;
               login_set_cookie :=
                 Some {| cookie_key := "session";
                         cookie_value := token;
                         cookie_httponly := true;
                         cookie_samesite := COOKIE_SAMESITE cfg;
                         cookie_secure := COOKIE_SECURE cfg;
                         cookie_path := "/" |} |}
  end.

Definition message_out (m : Message.t) : MessageOut :=
  {| out_id := Message.id m;
     out_role := Message.role m;
     out_content := Message.content m;
     out_created_at := Message.created_at m |}.

(** The endpoint function of GET /conversations/{conversation_id}/messages.
    It is the answer when [conversation_id] is a [sqlite_integer]; for
    any other the query raises as it binds the id and the answer is 500. *)
Definition get_messages (db : DB) (conversation_id : Z) : list MessageOut :=
  let msgs := order_by_created_at (query_messages db conversation_id) in
  map message_out msgs.

(** The route: the endpoint behind its [require_login] dependency. *)
Definition route_get_messages (now : datetime) (session : option string)
    (db : DB) (conversation_id : Z) : result (list MessageOut) :=
  Depends_require_login now session (fun _ => get_messages db conversation_id).

(** POST /conversations/{conversation_id}/messages; it declares no
    [require_login] dependency.  [now] is the clock when the row is
    inserted, the column default [datetime.utcnow].  [db1] is the database
    after the first commit, the result is the database after the second
    and the row read back by [db.refresh].  It is what the endpoint does
    when [conversation_id] is a [sqlite_integer] and the messages table has
    a rowid left; for any other id the first query raises as it binds the
    id, the answer is 500 and nothing is stored. *)
Definition post_message (db : DB) (now : datetime) (conversation_id : Z)
    (message : MessageCreate) : DB * Message.t :=
  let db1 :=
    match query_conversation_first db conversation_id with
    | Some _ => db
    | None =>
        {| users := users db;
           conversations :=
             conversations db ++ [ {| Conversation.id := conversation_id |} ];
           messages := messages db |}
    end in
  let msg :=
    {| Message.id := next_rowid (map Message.id (messages db1));
       Message.conversation_id := conversation_id;
       Message.role := mc_role message;
       Message.content := mc_content message;
       Message.created_at := now |} in
  ({| users := users db1;
      conversations := conversations db1;
      messages := messages db1 ++ [msg] |}, msg).

End App.

(** ** Instances of the three interfaces

    The functions of one concrete instance per interface; their laws are
    proved below, where the instances are declared. *)

(** *** The storage engine: SQLite *)

(** Insert a row before the first row that is not older than it. *)
Fixpoint insert_row (m : Message.t) (sorted : list Message.t)
    : list Message.t :=
  match sorted with
  | [] => [m]
  | x :: rest =>
      if (Message.created_at m <=? Message.created_at x)%Z
      then m :: sorted
      else x :: insert_row m rest
  end.

(** SQLite's ORDER BY over a table scan: a sort on [created_at] under
    which rows with equal keys keep the order they were scanned in, the
    order of their rowids. *)
Definition sort_rows (rows : list Message.t) : list Message.t :=
  fold_right insert_row [] rows.

(** *** A token format

    Four fields, each written as its length in unary, a ["0"], and the
    field itself: [alg], [sub], [exp] in decimal, the signature. *)

Fixpoint tally (n : nat) (rest : string) : string :=
  match n with
  | O => String "0"%char rest
  | S k => String "1"%char (tally k rest)
  end.

Fixpoint untally (s : string) : option (nat * string) :=
  match s with
  | EmptyString => None
  | String c rest =>
      if Ascii.eqb c "0"%char then Some (O, rest)
      else if Ascii.eqb c "1"%char then
        match untally rest with
        | Some (n, rest') => Some (S n, rest')
        | None => None
        end
      else None
  end.

Fixpoint take (n : nat) (s : string) : option (string * string) :=
  match n with
  | O => Some (EmptyString, s)
  | S k =>
      match s with
      | EmptyString => None
      | String c rest =>
          match take k rest with
          | Some (field, rest') => Some (String c field, rest')
          | None => None
          end
      end
  end.

Definition put_field (field rest : string) : string :=
  tally (String.length field) (field ++ rest).

Definition get_field (s : string) : option (string * string) :=
  match untally s with
  | Some (n, rest) => take n rest
  | None => None
  end.

Definition fields_compact (j : JWS) : string :=
  put_field (jws_alg j)
    (put_field (sub (jws_payload j))
       (put_field (NilEmpty.string_of_int (Z.to_int (exp (jws_payload j))))
          (put_field (jws_signature j) ""))).

Definition fields_parse (s : string) : option JWS :=
  match get_field s with
  | Some (alg, s1) =>
      match get_field s1 with
      | Some (sub_, s2) =>
          match get_field s2 with
          | Some (exp_, s3) =>
              match get_field s3, NilEmpty.int_of_string exp_ with
              | Some (sig, EmptyString), Some d =>
                  Some {| jws_alg := alg;
                          jws_payload := {| sub := sub_; exp := Z.of_int d |};
                          jws_signature := sig |}
              | _, _ => None
              end
          | None => None
          end
      | None => None
      end
  | None => None
  end.

(** A keyed tag over the signing input. *)
Definition keyed_tag (alg key : string) (input : string * Claims) : string :=
  key ++ "." ++ alg ++ "." ++ fst input ++ "." ++ sub (snd input) ++ "." ++
  NilEmpty.string_of_int (Z.to_int (exp (snd input))).

(** *** A password scheme

    The stored hash is the salt as a length-prefixed field followed by the
    password. *)

Definition salted_hash (password salt : string) : string :=
  put_field salt password.

Definition salted_verify (password hash : string) : bool :=
  match get_field hash with
  | Some (_, rest) => rest =? password
  | None => false
  end.

(** ** Predicates of the statements *)

(** Every message row points at a conversation row. *)
Definition references_ok (db : DB) : Prop :=
  forall m, In m (messages db) ->
    In (Message.conversation_id m) (map Conversation.id (conversations db)).

(** The order C5 claims: by [created_at], and by [id] among equals. *)
Definition created_then_id_le (a b : MessageOut) : Prop :=
  (out_created_at a < out_created_at b)%Z
  \/ (out_created_at a = out_created_at b /\ (out_id a <= out_id b)%Z).

Definition row_created_then_id_le (a b : Message.t) : Prop :=
  created_then_id_le (message_out a) (message_out b).

Definition ids_increasing (db : DB) : Prop :=
  StronglySorted Z.lt (map Message.id (messages db)).

(** *** When a login can be answered

    The calls of [login] that can raise on a request with good
    credentials: the addition of the configured hours to the clock
    ([OverflowError] outside [datetime]'s range), [jwt.encode] (an
    algorithm it cannot sign with under a secret string) and
    [response.set_cookie] (it asserts the SameSite value). *)

Definition hmac_algorithm (alg : string) : Prop :=
  alg = "HS256" \/ alg = "HS384" \/ alg = "HS512".

Definition samesite_accepted (value : string) : Prop :=
  lower value = "strict" \/ lower value = "lax" \/ lower value = "none".

Definition can_issue (cfg : Config) (now : datetime) : Prop :=
  representable now
  /\ representable (now + timedelta_hours (ACCESS_TOKEN_EXPIRE_HOURS cfg))
  /\ hmac_algorithm (ALGORITHM cfg)
  /\ samesite_accepted (COOKIE_SAMESITE cfg).



(** Why the guard turns a request away. *)
Inductive rejected {J : Jose} (cfg : Config) (now : datetime)
    : option string -> Prop :=
  | missing_credential (session : option string) :
      truthy session = false -> rejected cfg now session
  | invalid_signature (token : string) (j : JWS) :
      parse_compact token = Some j ->
      jws_signature j
        <> hmac_sign (jws_alg j) (SECRET_KEY cfg) (signing_input j) ->
      rejected cfg now (Some token)
  | expired (token : string) (j : JWS) :
      parse_compact token = Some j ->
      (exp (jws_payload j) < timegm now)%Z ->
      rejected cfg now (Some token).

(** *** Text of an origin *)

Definition first_char (s : string) : option ascii :=
  match s with
  | EmptyString => None
  | String c _ => Some c
  end.

Fixpoint last_char (s : string) : option ascii :=
  match s with
  | EmptyString => None
  | String c EmptyString => Some c
  | String _ rest => last_char rest
  end.

(** Not empty, and no white space at either end. *)
Definition trimmed (s : string) : bool :=
  match first_char s, last_char s with
  | Some a, Some b => negb (isspace a) && negb (isspace b)
  | _, _ => false
  end.

Fixpoint has_comma (s : string) : bool :=
  match s with
  | EmptyString => false
  | String c rest => Ascii.eqb c ","%char || has_comma rest
  end.

(** *** States of the database

    What the program makes of a fresh database: the tables [create_all]
    leaves empty, then any run of the startup hook and of POSTs.  [login]
    and [get_messages] write nothing. *)
Inductive reachable {P : Passlib} (cfg : Config) : DB -> Prop :=
  | reachable_fresh : reachable cfg empty_db
  | reachable_startup (db : DB) (salt : string) :
      reachable cfg db -> reachable cfg (startup cfg db salt)
  | reachable_post (db : DB) (now : datetime) (cid : Z)
      (message : MessageCreate) :
      reachable cfg db ->
      reachable cfg (fst (post_message db now cid message)).

Definition created_lt (a b : Message.t) : Prop :=
  (Message.created_at a < Message.created_at b)%Z.

(** ** Sample inputs *)

Definition sample_env : Environ :=
  {| env_SECRET_KEY := Some "s3cret";
     env_JWT_ALGORITHM := None;
     env_ACCESS_TOKEN_EXPIRE_HOURS := None;
     env_ADMIN_USERNAME := Some "admin";
     env_ADMIN_PASSWORD := Some "secret";
     env_COOKIE_SECURE := None;
     env_COOKIE_SAMESITE := None |}.

Definition sample_cfg : Config :=
  {| SECRET_KEY := "s3cret";
     ALGORITHM := "HS256";
     ACCESS_TOKEN_EXPIRE_HOURS := 1;
     ADMIN_USERNAME := Some "admin";
     ADMIN_PASSWORD := Some "secret";
     COOKIE_SECURE := true;
     COOKIE_SAMESITE := "lax" |}.

Definition admin : User.t :=
  {| User.id := 1;
     User.username := "admin";
     User.password_hash := salted_hash "secret" "salt" |}.

Definition sample_db : DB :=
  {| users := [admin]; conversations := []; messages := [] |}.

(** Two messages posted to conversation 7 while the clock reads the same
    instant. *)
Definition two_posts_one_instant : DB :=
  fst (post_message
         (fst (post_message empty_db 1000 7
                 {| mc_role := "user"; mc_content := "first" |}))
         1000 7 {| mc_role := "user"; mc_content := "second" |}).

(** A token for [admin] whose signature is not the server's. *)
Definition tampered_token : string :=
  fields_compact
    {| jws_alg := "HS256";
       jws_payload := {| sub := "admin"; exp := 3605 |};
       jws_signature := "forged" |}.

(** Two messages posted to conversation 7, the clock moving on in
    between, and one to conversation 8. *)
Definition three_posts : DB :=
  fst (post_message
         (fst (post_message
                 (fst (post_message sample_db 1000 7
                         {| mc_role := "user"; mc_content := "first" |}))
                 2000 8 {| mc_role := "user"; mc_content := "aside" |}))
         3000 7 {| mc_role := "assistant"; mc_content := "second" |}).

(** * Properties *)

(** ** Laws of the instances *)

Lemma insert_row_permutation m l : Permutation (m :: l) (insert_row m l).
Proof.
  induction l as [|x rest IH]; simpl.
  - apply Permutation_refl.
  - destruct (Message.created_at m <=? Message.created_at x)%Z.
    + apply Permutation_refl.
    + eapply perm_trans; [apply perm_swap|].
      now apply perm_skip.
Qed.

Lemma sort_rows_permutation rows : Permutation rows (sort_rows rows).
Proof.
  induction rows as [|m rest IH]; simpl.
  - constructor.
  - eapply perm_trans; [apply perm_skip, IH|].
    apply insert_row_permutation.
Qed.

Lemma insert_row_sorted m l :
  StronglySorted created_le l -> StronglySorted created_le (insert_row m l).
Proof.
  induction 1 as [|x rest Hs IH Hall]; simpl.
  - repeat constructor.
  - destruct (Z.leb_spec (Message.created_at m) (Message.created_at x)) as [Hle|Hgt].
    + constructor; [now constructor|].
      constructor; [exact Hle|].
      rewrite Forall_forall in Hall |- *.
      intros y Hy. specialize (Hall y Hy). unfold created_le in *. lia.
    + constructor; [exact IH|].
      rewrite Forall_forall in Hall |- *.
      intros y Hy.
      apply (Permutation_in y (Permutation_sym (insert_row_permutation m rest))) in Hy.
      destruct Hy as [<-|Hy]; [unfold created_le; lia|now apply Hall].
Qed.

Lemma sort_rows_sorted rows : StronglySorted created_le (sort_rows rows).
Proof.
  induction rows as [|m rest IH]; simpl.
  - constructor.
  - now apply insert_row_sorted.
Qed.

(** SQLite, the engine [create_engine] connects to: it scans the table in
    rowid order and its sort keeps rows of equal [created_at] in scan
    order. *)
Definition sqlite_engine : StorageEngine :=
  {| order_by_created_at := sort_rows;
     order_by_permutation := sort_rows_permutation;
     order_by_sorted := sort_rows_sorted |}.

Lemma untally_tally n rest : untally (tally n rest) = Some (n, rest).
Proof.
  induction n as [|n IH]; simpl; [reflexivity|now rewrite IH].
Qed.

Lemma take_length_app field rest :
  take (String.length field) (field ++ rest) = Some (field, rest).
Proof.
  induction field as [|c field IH]; simpl; [reflexivity|now rewrite IH].
Qed.

Lemma get_put_field field rest :
  get_field (put_field field rest) = Some (field, rest).
Proof.
  unfold get_field, put_field.
  rewrite untally_tally. apply take_length_app.
Qed.

Lemma salted_verify_hash password salt :
  salted_verify password (salted_hash password salt) = true.
Proof.
  unfold salted_verify, salted_hash.
  rewrite get_put_field. apply String.eqb_refl.
Qed.

Lemma fields_parse_compact j : fields_parse (fields_compact j) = Some j.
Proof.
  destruct j as [alg [s e] sig].
  unfold fields_parse, fields_compact; simpl.
  rewrite !get_put_field, NilEmpty.isi, DecimalZ.of_to.
  reflexivity.
Qed.

Definition salted_passlib : Passlib :=
  {| pwd_hash := salted_hash;
     pwd_verify := salted_verify;
     pwd_verify_hash := salted_verify_hash |}.

Definition fields_jose : Jose :=
  {| hmac_sign := keyed_tag;
     compact := fields_compact;
     parse_compact := fields_parse;
     parse_compact_of_compact := fields_parse_compact;
     parse_compact_empty := eq_refl |}.

(** The token [login] issues to [admin] when the clock reads 5 s. *)
Definition admin_token : string :=
  @jwt_encode fields_jose "admin" 3605000000 "s3cret" "HS256".

(** A token signed with the server's key for a subject that is no user. *)
Definition stranger_token : string :=
  @jwt_encode fields_jose "nobody" 3605000000 "s3cret" "HS256".

(** ** Row identifiers *)

Lemma fold_left_max_ge (l : list Z) : forall a x,
  In x (a :: l) -> (x <= fold_left Z.max l a)%Z.
Proof.
  induction l as [|y l IH]; simpl; intros a x H.
  - destruct H as [->|[]]. lia.
  - destruct H as [->|[->|H]].
    + specialize (IH (Z.max x y) (Z.max x y) (or_introl eq_refl)). lia.
    + specialize (IH (Z.max a x) (Z.max a x) (or_introl eq_refl)). lia.
    + apply IH. now right.
Qed.

Lemma next_rowid_above ids x : In x ids -> (x < next_rowid ids)%Z.
Proof.
  destruct ids as [|i rest]; [intros []|].
  intros H. apply fold_left_max_ge in H. unfold next_rowid. lia.
Qed.


(** ** The ledger: what [post_message] does to the tables *)

Lemma query_conversation_first_none db cid :
  query_conversation_first db cid = None <->
  ~ In cid (map Conversation.id (conversations db)).
Proof.
  unfold query_conversation_first. split.
  - intros H Hin. apply in_map_iff in Hin as [c [<- Hc]].
    apply (find_none _ _ H) in Hc. simpl in Hc. lia.
  - intros H. destruct (find _ _) as [c|] eqn:F; [|reflexivity].
    apply find_some in F as [Hc Heq]. exfalso. apply H.
    apply in_map_iff. exists c. split; [lia|exact Hc].
Qed.

Lemma post_message_users db now cid message :
  users (fst (post_message db now cid message)) = users db.
Proof.
  unfold post_message. now destruct (query_conversation_first db cid).
Qed.

Lemma post_message_messages db now cid message :
  messages (fst (post_message db now cid message))
  = (messages db ++ [snd (post_message db now cid message)])%list.
Proof.
  unfold post_message. now destruct (query_conversation_first db cid).
Qed.

Lemma post_message_row db now cid message :
  snd (post_message db now cid message)
  = {| Message.id := next_rowid (map Message.id (messages db));
       Message.conversation_id := cid;
       Message.role := mc_role message;
       Message.content := mc_content message;
       Message.created_at := now |}.
Proof.
  unfold post_message. now destruct (query_conversation_first db cid).
Qed.

Lemma post_message_conversations db now cid message :
  conversations (fst (post_message db now cid message))
  = if in_dec Z.eq_dec cid (map Conversation.id (conversations db))
    then conversations db
    else (conversations db ++ [ {| Conversation.id := cid |} ])%list.
Proof.
  unfold post_message.
  destruct (in_dec Z.eq_dec cid _) as [Hin|Hout].
  - destruct (query_conversation_first db cid) eqn:Q; [reflexivity|].
    now apply query_conversation_first_none in Q.
  - apply query_conversation_first_none in Hout. now rewrite Hout.
Qed.


Lemma query_messages_post_other db now cid cid' message :
  cid <> cid' ->
  query_messages (fst (post_message db now cid message)) cid'
  = query_messages db cid'.
Proof.
  intros Hne. unfold query_messages.
  rewrite post_message_messages, filter_app, post_message_row. simpl.
  destruct (Z.eqb_spec cid cid'); [contradiction|apply app_nil_r].
Qed.

Lemma references_ok_empty : references_ok empty_db.
Proof. intros m []. Qed.

Lemma post_message_references_ok db now cid message :
  references_ok db -> references_ok (fst (post_message db now cid message)).
Proof.
  intros Hok m. rewrite post_message_messages, post_message_conversations.
  intros Hin. apply in_app_or in Hin as [Hin|[<-|[]]].
  - specialize (Hok m Hin).
    destruct (in_dec _ _ _); [exact Hok|].
    rewrite map_app. apply in_or_app. now left.
  - rewrite post_message_row. simpl.
    destruct (in_dec _ _ _) as [Hc|Hc]; [exact Hc|].
    rewrite map_app. apply in_or_app. right. now left.
Qed.


Section Ledger.
Context {E : StorageEngine}.

Lemma order_by_nil : order_by_created_at [] = [].
Proof. apply Permutation_nil, order_by_permutation. Qed.


Lemma get_messages_permutation db cid :
  Permutation (map message_out (query_messages db cid)) (get_messages db cid).
Proof.
  unfold get_messages. apply Permutation_map, order_by_permutation.
Qed.

Lemma get_messages_sorted db cid :
  StronglySorted (fun a b => (out_created_at a <= out_created_at b)%Z)
                 (get_messages db cid).
Proof.
  unfold get_messages.
  generalize (order_by_sorted (query_messages db cid)).
  induction 1 as [|m l Hs IH Hall]; simpl; constructor.
  - exact IH.
  - rewrite Forall_forall in Hall |- *.
    intros o Ho. apply in_map_iff in Ho as [m' [<- Hm']].
    exact (Hall m' Hm').
Qed.

End Ledger.

(** ** Appending and reading back *)

Section AppendThenList.
Context {E : StorageEngine}.


(** C9.  Appending to conversation [cid] leaves the listing of every other
    conversation [cid'] as it was. *)
Theorem append_leaves_other_conversations
    (db : DB) (now : datetime) (cid cid' : Z) (message : MessageCreate) :
  cid <> cid' ->
  get_messages (fst (post_message db now cid message)) cid'
  = get_messages db cid'.
Proof.
  intros Hne. unfold get_messages.
  now rewrite query_messages_post_other.
Qed.

(** Under every engine [get_messages] returns the messages of the
    conversation, all of them and no others, in ascending order of
    [created_at]. *)
Lemma list_is_ordered_by_created_at (db : DB) (cid : Z) :
  Permutation
    (map message_out
       (filter (fun m => (Message.conversation_id m =? cid)%Z) (messages db)))
    (get_messages db cid)
  /\ StronglySorted (fun a b => (out_created_at a <= out_created_at b)%Z)
                    (get_messages db cid).
Proof.
  split.
  - apply get_messages_permutation.
  - apply get_messages_sorted.
Qed.

End AppendThenList.

(** C7.  Two appends in a row to a conversation id that SQLite can bind
    and that has no row create one conversation row with that id. *)
Theorem two_appends_one_conversation
    (db : DB) (now1 now2 : datetime) (cid : Z) (m1 m2 : MessageCreate) :
  sqlite_integer cid ->
  ~ In cid (map Conversation.id (conversations db)) ->
  let db2 :=
    fst (post_message (fst (post_message db now1 cid m1)) now2 cid m2) in
  conversations db2
  = (conversations db ++ [ {| Conversation.id := cid |} ])%list
  /\ count_occ Z.eq_dec (map Conversation.id (conversations db2)) cid = 1%nat.
Proof.
  intros _ Hfresh db2.
  assert (Hc : conversations db2
               = (conversations db ++ [ {| Conversation.id := cid |} ])%list).
  { unfold db2. rewrite !post_message_conversations.
    destruct (in_dec Z.eq_dec cid (map Conversation.id (conversations db)))
      as [Hin|_]; [contradiction|].
    destruct (in_dec _ _ _) as [_|Hout]; [reflexivity|].
    exfalso. apply Hout. rewrite map_app. apply in_or_app. right. now left. }
  split; [exact Hc|].
  rewrite Hc, map_app, count_occ_app. simpl.
  apply (count_occ_not_In Z.eq_dec) in Hfresh. rewrite Hfresh.
  now destruct (Z.eq_dec cid cid).
Qed.

Lemma two_appends_one_conversation_witness :
  count_occ Z.eq_dec
    (map Conversation.id (conversations two_posts_one_instant)) 7 = 1%nat.
Proof.
  apply (@two_appends_one_conversation empty_db 1000 1000 7
           {| mc_role := "user"; mc_content := "first" |}
           {| mc_role := "user"; mc_content := "second" |}).
  - unfold sqlite_integer. lia.
  - simpl. intros [].
Defined.

Lemma append_leaves_other_conversations_witness :
  @get_messages sqlite_engine
     (fst (post_message two_posts_one_instant 2000 8
             {| mc_role := "user"; mc_content := "elsewhere" |})) 7
  = @get_messages sqlite_engine two_posts_one_instant 7.
Proof.
  apply (@append_leaves_other_conversations sqlite_engine).
  lia.
Defined.

(** C8.  The role submitted is stored as it is, whatever its length: here
    a role of 21 characters, one more than the column type names. *)
Theorem long_role_is_stored :
  let message :=
    {| mc_role := "aaaaaaaaaaaaaaaaaaaaa"; mc_content := "hi" |} in
  let db' := fst (post_message empty_db 0 1 message) in
  let msg := snd (post_message empty_db 0 1 message) in
  In msg (messages db')
  /\ Message.role msg = mc_role message
  /\ String.length (Message.role msg) = 21%nat
  /\ (ROLE_COLUMN_LENGTH < String.length (Message.role msg))%nat.
Proof.
  simpl. repeat split.
  - now left.
  - unfold ROLE_COLUMN_LENGTH. lia.
Qed.

(** ** The order of equal timestamps on SQLite

    SQLite's sort keeps equal keys in scan order, and the ids of the
    messages table grow in scan order (as [post_message] leaves it), so its
    listing is in id order among equal timestamps. *)

Lemma insert_row_tie_sorted m l :
  StronglySorted row_created_then_id_le l ->
  Forall (fun y => (Message.id m < Message.id y)%Z) l ->
  StronglySorted row_created_then_id_le (insert_row m l).
Proof.
  induction 1 as [|x rest Hs IH Hall]; simpl; intros Hid.
  - repeat constructor.
  - apply Forall_cons_iff in Hid as [Hx Hrest].
    assert (Hxr : StronglySorted row_created_then_id_le (x :: rest))
      by now constructor.
    rewrite Forall_forall in Hall, Hrest.
    destruct (Z.leb_spec (Message.created_at m) (Message.created_at x))
      as [Hle|Hgt].
    + constructor; [exact Hxr|].
      assert (Hmx : row_created_then_id_le m x).
      { unfold row_created_then_id_le, created_then_id_le. simpl. lia. }
      constructor; [exact Hmx|].
      rewrite Forall_forall. intros y Hy.
      specialize (Hall y Hy). specialize (Hrest y Hy).
      unfold row_created_then_id_le, created_then_id_le in *. simpl in *. lia.
    + constructor.
      * apply IH. now rewrite Forall_forall.
      * rewrite Forall_forall. intros y Hy.
        apply (Permutation_in y
                 (Permutation_sym (insert_row_permutation m rest))) in Hy.
        destruct Hy as [<-|Hy]; [|now apply Hall].
        unfold row_created_then_id_le, created_then_id_le. simpl. lia.
Qed.

Lemma sort_rows_tie_sorted rows :
  StronglySorted Z.lt (map Message.id rows) ->
  StronglySorted row_created_then_id_le (sort_rows rows).
Proof.
  induction rows as [|m rest IH]; simpl; intros Hs.
  - constructor.
  - apply StronglySorted_inv in Hs as [Hs Hall].
    apply insert_row_tie_sorted; [now apply IH|].
    rewrite Forall_forall in Hall |- *. intros y Hy.
    apply Hall, in_map.
    exact (Permutation_in y (Permutation_sym (sort_rows_permutation rest)) Hy).
Qed.

Lemma filter_ids_increasing (f : Message.t -> bool) rows :
  StronglySorted Z.lt (map Message.id rows) ->
  StronglySorted Z.lt (map Message.id (filter f rows)).
Proof.
  induction rows as [|m rest IH]; simpl; intros Hs; [constructor|].
  apply StronglySorted_inv in Hs as [Hs Hall].
  destruct (f m); simpl; [constructor|]; try now apply IH.
  rewrite Forall_forall in Hall |- *. intros i Hi.
  apply Hall. apply in_map_iff in Hi as [y [<- Hy]].
  apply in_map. now apply filter_In in Hy as [Hy _].
Qed.

Lemma sqlite_engine_breaks_ties_by_id db cid :
  ids_increasing db ->
  StronglySorted created_then_id_le (@get_messages sqlite_engine db cid).
Proof.
  intros Hinc. unfold get_messages. simpl.
  assert (H : StronglySorted row_created_then_id_le
                (sort_rows (query_messages db cid)))
    by now apply sort_rows_tie_sorted, filter_ids_increasing.
  induction H as [|m l Hs IH Hall]; simpl; constructor; [exact IH|].
  rewrite Forall_forall in Hall |- *. intros o Ho.
  apply in_map_iff in Ho as [y [<- Hy]]. exact (Hall y Hy).
Qed.

Lemma ids_increasing_empty : ids_increasing empty_db.
Proof. constructor. Qed.

Lemma post_message_ids_increasing db now cid message :
  ids_increasing db ->
  ids_increasing (fst (post_message db now cid message)).
Proof.
  unfold ids_increasing.
  rewrite post_message_messages, post_message_row, map_app. simpl.
  generalize (@next_rowid_above (map Message.id (messages db))).
  generalize (next_rowid (map Message.id (messages db))).
  induction (map Message.id (messages db)) as [|i ids IH]; simpl;
    intros n Hn Hs.
  - repeat constructor.
  - apply StronglySorted_inv in Hs as [Hs Hall].
    constructor.
    + apply IH; [|exact Hs]. intros x Hx. apply Hn. now right.
    + apply Forall_app. split; [exact Hall|].
      constructor; [|constructor]. apply Hn. now left.
Qed.

(** C5.  On SQLite [get_messages] returns the messages of the
    conversation, all of them and no others, in ascending order of
    [created_at], and those with equal [created_at] in ascending order of
    id, the order they were inserted in.  The table is given in rowid
    order, ids growing along it, as SQLite stores it and as every POST
    leaves it; the id is one SQLite can bind. *)
Theorem listing_order_on_sqlite (db : DB) (cid : Z) :
  sqlite_integer cid ->
  ids_increasing db ->
  Permutation
    (map message_out
       (filter (fun m => (Message.conversation_id m =? cid)%Z) (messages db)))
    (@get_messages sqlite_engine db cid)
  /\ StronglySorted (fun a b => (out_created_at a <= out_created_at b)%Z)
                    (@get_messages sqlite_engine db cid)
  /\ StronglySorted created_then_id_le (@get_messages sqlite_engine db cid).
Proof.
  intros _ Hinc.
  split; [apply (@get_messages_permutation sqlite_engine)|].
  split; [apply (@get_messages_sorted sqlite_engine)|].
  now apply sqlite_engine_breaks_ties_by_id.
Qed.

(** ** Tokens *)

Lemma timegm_add_hours (now : datetime) (h : Z) :
  timegm (now + timedelta_hours h) = (timegm now + 3600 * h)%Z.
Proof.
  unfold timegm, timedelta_hours, MICROSECOND.
  rewrite Z.div_add by lia. lia.
Qed.

Section Tokens.
Context {J : Jose}.

Lemma compact_nonempty (j : JWS) : compact j <> "".
Proof.
  intros H. pose proof (parse_compact_of_compact j) as Hp.
  rewrite H, parse_compact_empty in Hp. discriminate.
Qed.

Lemma jwt_decode_valid token key alg now j :
  parse_compact token = Some j ->
  jws_alg j = alg ->
  jws_signature j = hmac_sign (jws_alg j) key (signing_input j) ->
  (timegm now <= exp (jws_payload j))%Z ->
  jwt_decode token key [alg] now = inr (jws_payload j).
Proof.
  intros Hp Halg Hsig Hexp. unfold jwt_decode. rewrite Hp. simpl.
  rewrite Halg, String.eqb_refl. simpl.
  rewrite <- Halg, <- Hsig, String.eqb_refl. simpl.
  destruct (Z.ltb_spec (exp (jws_payload j)) (timegm now)); [lia|reflexivity].
Qed.

Lemma jwt_decode_encode sub_ exp_ key alg now :
  (timegm now <= timegm exp_)%Z ->
  jwt_decode (jwt_encode sub_ exp_ key alg) key [alg] now
  = inr {| sub := sub_; exp := timegm exp_ |}.
Proof.
  intros Hexp. unfold jwt_encode.
  rewrite (@jwt_decode_valid _ key alg now _ (parse_compact_of_compact _));
    [reflexivity|reflexivity|reflexivity|exact Hexp].
Qed.

Lemma jwt_decode_bad_signature token key algorithms now j :
  parse_compact token = Some j ->
  jws_signature j <> hmac_sign (jws_alg j) key (signing_input j) ->
  jwt_decode token key algorithms now = inl JWTError_base.
Proof.
  intros Hp Hsig. unfold jwt_decode. rewrite Hp.
  destruct (negb (existsb _ _)); [reflexivity|].
  apply String.eqb_neq in Hsig. now rewrite Hsig.
Qed.

Lemma jwt_decode_expired token key algorithms now j :
  parse_compact token = Some j ->
  (exp (jws_payload j) < timegm now)%Z ->
  exists err, jwt_decode token key algorithms now = inl err.
Proof.
  intros Hp Hexp. unfold jwt_decode. rewrite Hp.
  destruct (negb (existsb _ _)); [now eexists|].
  destruct (negb (_ =? _)); [now eexists|].
  destruct (Z.ltb_spec (exp (jws_payload j)) (timegm now)); [now eexists|lia].
Qed.

End Tokens.

(** ** The credential store *)

Lemma query_user_first_unique db user :
  NoDup (map User.username (users db)) ->
  In user (users db) ->
  query_user_first db (User.username user) = Some user.
Proof.
  unfold query_user_first.
  induction (users db) as [|u rest IH]; simpl; intros Hnd Hin; [easy|].
  apply NoDup_cons_iff in Hnd as [Hu Hnd].
  destruct Hin as [->|Hin].
  - now rewrite String.eqb_refl.
  - destruct (String.eqb_spec (User.username u) (User.username user)) as [Heq|_].
    + exfalso. apply Hu. rewrite Heq. now apply in_map.
    + now apply IH.
Qed.


Section Startup.
Context {P : Passlib}.

(** The startup hook keeps usernames distinct, as the unique constraint
    demands. *)
Lemma startup_usernames_nodup cfg db salt :
  NoDup (map User.username (users db)) ->
  NoDup (map User.username (users (startup cfg db salt))).
Proof.
  intros Hnd. unfold startup.
  destruct (ADMIN_USERNAME cfg) as [name|]; [|exact Hnd].
  destruct (ADMIN_PASSWORD cfg) as [password|]; [|exact Hnd].
  destruct (_ || _); [exact Hnd|].
  destruct (query_user_first db name) eqn:Q; [exact Hnd|]. simpl.
  rewrite map_app. simpl.
  apply NoDup_rev in Hnd. rewrite <- (rev_involutive (_ ++ _)%list).
  apply NoDup_rev. rewrite rev_app_distr. simpl.
  constructor; [|exact Hnd].
  rewrite <- in_rev. intros Hin.
  apply in_map_iff in Hin as [u [Hname Hu]].
  apply (find_none _ _ Q) in Hu. simpl in Hu.
  apply String.eqb_neq in Hu. contradiction.
Qed.

End Startup.

(** ** Login *)

Section Auth.
Context {E : StorageEngine} {P : Passlib} {J : Jose}.
Variable cfg : Config.

(** C2.  When a stored user's hash verifies the submitted password, and
    the configuration and the clock are such that the token can be issued
    ([can_issue]), [login] answers [{status: ok}] and sets the [session]
    cookie; its token decodes, at any time up to the expiry, to that
    username as [sub] and to an [exp] that is the issue time in whole
    seconds plus the configured number of hours, which is the number the
    environment names, one when it names none. *)
Theorem login_sets_verifiable_cookie
    (env : Environ) (db : DB) (now : datetime) (data : LoginRequest)
    (user : User.t) :
  load_config env = inr cfg ->
  can_issue cfg now ->
  NoDup (map User.username (users db)) ->
  In user (users db) ->
  User.username user = lr_username data ->
  pwd_verify (lr_password data) (User.password_hash user) = true ->
  let expiry :=
    (timegm now + 3600 * ACCESS_TOKEN_EXPIRE_HOURS cfg)%Z in
  (forall hours,
     env_ACCESS_TOKEN_EXPIRE_HOURS env = Some (int_value hours) ->
     ACCESS_TOKEN_EXPIRE_HOURS cfg = hours)
  /\ (env_ACCESS_TOKEN_EXPIRE_HOURS env = None ->
      ACCESS_TOKEN_EXPIRE_HOURS cfg = 1%Z)
  /\ exists token,
       login cfg db now data
       = inr {| login_body := status_ok;
                login_set_cookie :=
                  Some {| cookie_key := "session";
                          cookie_value := token;
                          cookie_httponly := true;
                          cookie_samesite := COOKIE_SAMESITE cfg;
                          cookie_secure := COOKIE_SECURE cfg;
                          cookie_path := "/" |} |}
       /\ forall now', (timegm now' <= expiry)%Z ->
            jwt_decode token (SECRET_KEY cfg) [ALGORITHM cfg] now'
            = inr {| sub := User.username user; exp := expiry |}.
Proof.
  intros Hcfg _ Hnd Hin Hname Hpw expiry.
  assert (Httl : getenv (env_ACCESS_TOKEN_EXPIRE_HOURS env) (int_value 1)
                 = int_value (ACCESS_TOKEN_EXPIRE_HOURS cfg)).
  { unfold load_config in Hcfg.
    destruct (negb (truthy (env_SECRET_KEY env))); [discriminate|].
    destruct (getenv _ _) as [hours|]; [|discriminate].
    now injection Hcfg as <-. }
  split.
  { intros hours Hset. rewrite Hset in Httl. simpl in Httl.
    now injection Httl as <-. }
  split.
  { intros Hnone. rewrite Hnone in Httl. simpl in Httl.
    now injection Httl as <-. }
  eexists. unfold login.
  rewrite <- Hname, (query_user_first_unique db user Hnd Hin), Hpw. simpl.
  split; [reflexivity|].
  intros now' Hnow'.
  rewrite jwt_decode_encode; rewrite timegm_add_hours;
    [reflexivity|exact Hnow'].
Qed.


(** C4.  With no cookie, with a token whose signature does not match, and
    with a token past its expiry, [require_login] raises the same
    [HTTPException(401)], and a route that depends on it returns that
    exception without calling its endpoint function. *)
Theorem guard_rejects_uniformly (now : datetime) (session : option string) :
  rejected cfg now session ->
  require_login cfg now session = inl (HTTPException_status 401)
  /\ (forall (A : Type) (endpoint : unit -> A),
        Depends_require_login cfg now session endpoint
        = inl (HTTPException_status 401))
  /\ (forall db cid,
        route_get_messages cfg now session db cid
        = inl (HTTPException_status 401)).
Proof.
  intros Hrej.
  assert (H : require_login cfg now session = inl (HTTPException_status 401)).
  { unfold require_login.
    destruct Hrej as [session Hmissing|token j Hp Hsig|token j Hp Hexp].
    - destruct session as [token|]; [|reflexivity].
      simpl in Hmissing. apply negb_false_iff in Hmissing.
      now rewrite Hmissing.
    - destruct (token =? ""); [reflexivity|].
      now rewrite (@jwt_decode_bad_signature _ token (SECRET_KEY cfg)
                     [ALGORITHM cfg] now j Hp Hsig).
    - destruct (token =? ""); [reflexivity|].
      destruct (@jwt_decode_expired _ token (SECRET_KEY cfg) [ALGORITHM cfg]
                  now j Hp Hexp)
        as [err ->].
      reflexivity. }
  split; [exact H|].
  split; intros; unfold route_get_messages, Depends_require_login;
    now rewrite H.
Qed.

(** C10.  A token that parses, is signed for the configured algorithm with
    the server's key and has not expired passes the guard, whatever its
    subject and whatever the users table holds: [require_login] reads
    neither. *)
Theorem guard_ignores_subject
    (now : datetime) (token : string) (j : JWS) (db : DB) (cid : Z) :
  parse_compact token = Some j ->
  jws_alg j = ALGORITHM cfg ->
  jws_signature j
    = hmac_sign (jws_alg j) (SECRET_KEY cfg) (signing_input j) ->
  (timegm now <= exp (jws_payload j))%Z ->
  require_login cfg now (Some token) = inr tt
  /\ route_get_messages cfg now (Some token) db cid
     = inr (get_messages db cid).
Proof.
  intros Hp Halg Hsig Hexp.
  assert (H : require_login cfg now (Some token) = inr tt).
  { unfold require_login.
    destruct (String.eqb_spec token "") as [->|_].
    - rewrite parse_compact_empty in Hp. discriminate.
    - now rewrite (@jwt_decode_valid _ token (SECRET_KEY cfg) (ALGORITHM cfg)
                     now j Hp Halg Hsig Hexp). }
  split; [exact H|].
  unfold route_get_messages, Depends_require_login. now rewrite H.
Qed.

(** C6.  With a session the guard accepts, [get_messages] on a
    conversation that has no message, or that has no row at all, answers
    the empty list, for every id SQLite can bind. *)
Theorem list_of_empty_conversation
    (now : datetime) (session : option string) (db : DB) (cid : Z) :
  sqlite_integer cid ->
  require_login cfg now session = inr tt ->
  (forall m, In m (messages db) -> Message.conversation_id m <> cid)
  \/ (references_ok db
      /\ ~ In cid (map Conversation.id (conversations db))) ->
  route_get_messages cfg now session db cid = inr [].
Proof.
  intros _ Hlogin Hnone.
  assert (Hq : query_messages db cid = []).
  { unfold query_messages.
    destruct (filter _ _) as [|m rest] eqn:F; [reflexivity|].
    assert (Hm : In m (m :: rest)) by now left.
    rewrite <- F in Hm. apply filter_In in Hm as [Hm Hcid].
    apply Z.eqb_eq in Hcid.
    destruct Hnone as [Hnone|[Hok Hrow]].
    - now apply Hnone in Hm.
    - apply Hok in Hm. now rewrite Hcid in Hm. }
  unfold route_get_messages, Depends_require_login. rewrite Hlogin.
  unfold get_messages. now rewrite Hq, order_by_nil.
Qed.

End Auth.

(** ** The claims at concrete inputs *)

Example sample_cfg_loaded : load_config sample_env = inr sample_cfg.
Proof. reflexivity. Qed.

Example sample_db_started :
  @startup salted_passlib sample_cfg empty_db "salt" = sample_db.
Proof. reflexivity. Qed.


Lemma listing_order_on_sqlite_witness :
  @get_messages sqlite_engine two_posts_one_instant 7
  = [ {| out_id := 1; out_role := "user"; out_content := "first";
         out_created_at := 1000 |};
      {| out_id := 2; out_role := "user"; out_content := "second";
         out_created_at := 1000 |} ]
  /\ StronglySorted created_then_id_le
       (@get_messages sqlite_engine two_posts_one_instant 7).
Proof.
  split; [reflexivity|].
  apply (@listing_order_on_sqlite two_posts_one_instant 7).
  - unfold sqlite_integer. lia.
  - do 2 apply post_message_ids_increasing. apply ids_increasing_empty.
Defined.

Lemma login_sets_verifiable_cookie_witness :
  exists token,
    @login salted_passlib fields_jose sample_cfg sample_db 5000000
       {| lr_username := "admin"; lr_password := "secret" |}
    = inr {| login_body := status_ok;
             login_set_cookie :=
               Some {| cookie_key := "session";
                       cookie_value := token;
                       cookie_httponly := true;
                       cookie_samesite := "lax";
                       cookie_secure := true;
                       cookie_path := "/" |} |}
    /\ @jwt_decode fields_jose token "s3cret" ["HS256"] 3605999999
       = inr {| sub := "admin"; exp := 3605 |}.
Proof.
  destruct (@login_sets_verifiable_cookie salted_passlib fields_jose
              sample_cfg sample_env sample_db 5000000
              {| lr_username := "admin"; lr_password := "secret" |} admin)
    as (_ & _ & token & Hlogin & Hdecode).
  - reflexivity.
  - unfold can_issue, representable, hmac_algorithm, samesite_accepted.
    repeat split; try (vm_compute; discriminate); auto.
  - simpl. repeat constructor. intros [].
  - simpl. now left.
  - reflexivity.
  - reflexivity.
  - exists token. split; [exact Hlogin|].
    apply Hdecode. vm_compute. discriminate.
Defined.


Lemma guard_rejects_uniformly_witness :
  @require_login fields_jose sample_cfg 6000000 None
  = inl (HTTPException_status 401)
  /\ @require_login fields_jose sample_cfg 6000000 (Some tampered_token)
     = inl (HTTPException_status 401)
  /\ @require_login fields_jose sample_cfg 3606000000 (Some admin_token)
     = inl (HTTPException_status 401).
Proof.
  split; [|split];
    apply (fun session now H =>
             proj1 (@guard_rejects_uniformly sqlite_engine fields_jose
                      sample_cfg now session H)).
  - apply missing_credential. reflexivity.
  - eapply invalid_signature.
    + apply (@parse_compact_of_compact fields_jose).
    + vm_compute. discriminate.
  - eapply expired.
    + apply (@parse_compact_of_compact fields_jose).
    + vm_compute. reflexivity.
Defined.

Lemma guard_ignores_subject_witness :
  @query_user_first sample_db "nobody" = None
  /\ @route_get_messages sqlite_engine fields_jose sample_cfg 6000000
       (Some stranger_token) sample_db 42
     = inr (@get_messages sqlite_engine sample_db 42).
Proof.
  split; [reflexivity|].
  eapply (fun j H1 H2 H3 H4 =>
            proj2 (@guard_ignores_subject sqlite_engine fields_jose
                     sample_cfg 6000000 stranger_token j sample_db 42
                     H1 H2 H3 H4)).
  - apply (@parse_compact_of_compact fields_jose).
  - reflexivity.
  - reflexivity.
  - vm_compute. discriminate.
Defined.

Lemma list_of_empty_conversation_witness :
  @route_get_messages sqlite_engine fields_jose sample_cfg 6000000
     (Some admin_token) sample_db 42
  = inr []
  /\ @route_get_messages sqlite_engine fields_jose sample_cfg 6000000
       (Some admin_token) two_posts_one_instant 42
     = inr [].
Proof.
  split; apply list_of_empty_conversation.
  - unfold sqlite_integer. lia.
  - reflexivity.
  - right. split; [intros m []|intros []].
  - unfold sqlite_integer. lia.
  - reflexivity.
  - left. simpl. intros m [<-|[<-|[]]]; simpl; lia.
Defined.

(** The scenario of the specification, run end to end: log in as admin,
    read conversation 42 (empty), post to it, read it again. *)
Example scenario :
  let login_at := 5000000%Z in
  let db1 := fst (post_message sample_db 7000000 42
                    {| mc_role := "user"; mc_content := "hi" |}) in
  @login salted_passlib fields_jose sample_cfg sample_db login_at
     {| lr_username := "admin"; lr_password := "secret" |}
  = inr {| login_body := status_ok;
           login_set_cookie :=
             Some {| cookie_key := "session";
                     cookie_value := admin_token;
                     cookie_httponly := true;
                     cookie_samesite := "lax";
                     cookie_secure := true;
                     cookie_path := "/" |} |}
  /\ @route_get_messages sqlite_engine fields_jose sample_cfg 6000000
       (Some admin_token) sample_db 42 = inr []
  /\ snd (post_message sample_db 7000000 42
            {| mc_role := "user"; mc_content := "hi" |})
     = {| Message.id := 1; Message.conversation_id := 42;
          Message.role := "user"; Message.content := "hi";
          Message.created_at := 7000000 |}
  /\ @route_get_messages sqlite_engine fields_jose sample_cfg 8000000
       (Some admin_token) db1 42
     = inr [ {| out_id := 1; out_role := "user"; out_content := "hi";
                out_created_at := 7000000 |} ].
Proof. vm_compute. repeat split. Qed.

(** * Further properties of the code *)

(** ** Lookups after an insert *)

Lemma find_app_some {A} (f : A -> bool) (l l' : list A) (x : A) :
  find f l = Some x -> find f (l ++ l') = Some x.
Proof.
  induction l as [|y l IH]; simpl; [discriminate|].
  destruct (f y); [trivial|exact IH].
Qed.

Lemma find_app_none {A} (f : A -> bool) (l l' : list A) :
  find f l = None -> find f (l ++ l') = find f l'.
Proof.
  induction l as [|y l IH]; simpl; [trivial|].
  destruct (f y); [discriminate|exact IH].
Qed.

(** The two outcomes of the startup hook. *)
Lemma startup_cases {P : Passlib} cfg db salt :
  startup cfg db salt = db
  \/ exists name password,
       ADMIN_USERNAME cfg = Some name /\ ADMIN_PASSWORD cfg = Some password
       /\ name <> "" /\ password <> ""
       /\ query_user_first db name = None
       /\ startup cfg db salt
          = {| users := users db ++
                 [ {| User.id := next_rowid (map User.id (users db));
                      User.username := name;
                      User.password_hash := pwd_hash password salt |} ];
               conversations := conversations db;
               messages := messages db |}.
Proof.
  unfold startup.
  destruct (ADMIN_USERNAME cfg) as [name|]; [|now left].
  destruct (ADMIN_PASSWORD cfg) as [password|]; [|now left].
  destruct (String.eqb_spec name ""); [now left|].
  destruct (String.eqb_spec password ""); [now left|]. simpl.
  destruct (query_user_first db name) eqn:Q; [now left|].
  right. now exists name, password.
Qed.

(** ** The startup hook *)

Section StartupHook.
Context {P : Passlib} {J : Jose}.
Variable cfg : Config.

(** X1.  Running the startup hook again changes nothing, whatever salts
    the two runs draw. *)
Theorem startup_idempotent (db : DB) (salt salt' : string) :
  startup cfg (startup cfg db salt) salt' = startup cfg db salt.
Proof.
  destruct (startup_cases cfg db salt)
    as [Hsame|(name & password & Hn & Hp & Hne & Hpe & Hq & Hnew)].
  - rewrite Hsame.
    destruct (startup_cases cfg db salt')
      as [Hsame'|(name' & password' & Hn' & Hp' & Hne' & Hpe' & Hq' & _)];
      [exact Hsame'|].
    exfalso. unfold startup in Hsame. rewrite Hn', Hp', Hq' in Hsame.
    apply String.eqb_neq in Hne', Hpe'. rewrite Hne', Hpe' in Hsame.
    apply (f_equal (fun d => List.length (users d))) in Hsame.
    simpl in Hsame. rewrite length_app in Hsame. simpl in Hsame. lia.
  - rewrite Hnew. unfold startup at 1. rewrite Hn, Hp.
    apply String.eqb_neq in Hne, Hpe. rewrite Hne, Hpe. simpl.
    unfold query_user_first in *. simpl.
    rewrite (find_app_none _ _ _ Hq). simpl.
    now rewrite String.eqb_refl.
Qed.

(** X2.  The startup hook writes the users table only, and there it only
    appends, one row at most: every user stored before is found as before,
    so a login for a stored username has the outcome it had, and the
    password of an admin already stored is not replaced by the configured
    one. *)
Theorem startup_keeps_stored_users (db : DB) (salt : string) :
  conversations (startup cfg db salt) = conversations db
  /\ messages (startup cfg db salt) = messages db
  /\ (exists added, users (startup cfg db salt) = (users db ++ added)%list
                    /\ (List.length added <= 1)%nat)
  /\ (forall name user,
        query_user_first db name = Some user ->
        query_user_first (startup cfg db salt) name = Some user)
  /\ (forall now data user,
        query_user_first db (lr_username data) = Some user ->
        login cfg (startup cfg db salt) now data = login cfg db now data).
Proof.
  assert (Hfind : forall name user,
            query_user_first db name = Some user ->
            query_user_first (startup cfg db salt) name = Some user).
  { intros name user Hq.
    destruct (startup_cases cfg db salt)
      as [->|(n & p & _ & _ & _ & _ & _ & ->)]; [exact Hq|].
    unfold query_user_first in *. simpl. now apply find_app_some. }
  destruct (startup_cases cfg db salt)
    as [Hsame|(n & p & _ & _ & _ & _ & _ & Hnew)].
  - rewrite Hsame in *.
    split; [reflexivity|]. split; [reflexivity|].
    split; [exists []; split; [now rewrite app_nil_r|simpl; lia]|].
    split; [exact Hfind|reflexivity].
  - split; [now rewrite Hnew|]. split; [now rewrite Hnew|].
    split.
    { eexists. rewrite Hnew. simpl. split; [reflexivity|simpl; lia]. }
    split; [exact Hfind|].
    intros now data user Hq. unfold login.
    now rewrite (Hfind _ _ Hq), Hq.
Qed.

(** X3.  When both admin credentials are configured, not empty, and no
    user of that name is stored, the startup hook stores one, and a login
    with the configured credentials then succeeds and sets the session
    cookie, provided the configuration and the clock are such that the
    token can be issued ([can_issue]). *)
Theorem startup_then_admin_login
    (db : DB) (salt name password : string) (now : datetime) :
  can_issue cfg now ->
  ADMIN_USERNAME cfg = Some name ->
  ADMIN_PASSWORD cfg = Some password ->
  name <> "" -> password <> "" ->
  query_user_first db name = None ->
  exists token,
    login cfg (startup cfg db salt) now
      {| lr_username := name; lr_password := password |}
    = inr {| login_body := status_ok;
             login_set_cookie :=
               Some {| cookie_key := "session";
                       cookie_value := token;
                       cookie_httponly := true;
                       cookie_samesite := COOKIE_SAMESITE cfg;
                       cookie_secure := COOKIE_SECURE cfg;
                       cookie_path := "/" |} |}.
Proof.
  intros _ Hn Hp Hne Hpe Hq.
  eexists. unfold login, startup. rewrite Hn, Hp.
  apply String.eqb_neq in Hne, Hpe. rewrite Hne, Hpe. simpl.
  rewrite Hq. unfold query_user_first in *. simpl.
  rewrite (find_app_none _ _ _ Hq). simpl.
  rewrite String.eqb_refl. simpl.
  now rewrite pwd_verify_hash.
Qed.

End StartupHook.

(** ** Sessions *)

Section Sessions.
Context {P : Passlib} {J : Jose}.
Variable cfg : Config.

(** What [jwt_decode] answers for the one configured algorithm, test by
    test. *)
Lemma jwt_decode_accepts_iff token key alg now claims :
  jwt_decode token key [alg] now = inr claims <->
  exists j,
    parse_compact token = Some j /\ jws_payload j = claims
    /\ jws_alg j = alg
    /\ jws_signature j = hmac_sign (jws_alg j) key (signing_input j)
    /\ (timegm now <= exp (jws_payload j))%Z.
Proof.
  unfold jwt_decode. split.
  - destruct (parse_compact token) as [j|]; [|discriminate]. simpl.
    rewrite orb_false_r.
    destruct (String.eqb_spec (jws_alg j) alg) as [Halg|]; [|discriminate].
    simpl.
    destruct (String.eqb_spec (jws_signature j)
                (hmac_sign (jws_alg j) key (signing_input j))) as [Hsig|];
      [|discriminate].
    simpl.
    destruct (Z.ltb_spec (exp (jws_payload j)) (timegm now)) as [|Hexp];
      [discriminate|].
    intros [= <-]. now exists j.
  - intros (j & Hp & <- & Halg & Hsig & Hexp).
    now apply jwt_decode_valid.
Qed.

(** X4.  [require_login] lets a request through exactly when its cookie
    holds a token that parses, names the configured algorithm in its
    header, carries the signature the server's key gives its header and
    payload, and has an [exp] not before the clock in whole seconds; every
    other request gets [HTTPException(401)] and no other status. *)
Theorem require_login_accepts_iff (now : datetime) (session : option string) :
  (require_login cfg now session = inr tt <->
   exists token j,
     session = Some token
     /\ parse_compact token = Some j
     /\ jws_alg j = ALGORITHM cfg
     /\ jws_signature j
        = hmac_sign (jws_alg j) (SECRET_KEY cfg) (signing_input j)
     /\ (timegm now <= exp (jws_payload j))%Z)
  /\ (require_login cfg now session = inr tt
      \/ require_login cfg now session = inl (HTTPException_status 401)).
Proof.
  split.
  - unfold require_login. split.
    + destruct session as [token|]; [|discriminate].
      destruct (token =? ""); [discriminate|].
      destruct (jwt_decode token (SECRET_KEY cfg) [ALGORITHM cfg] now)
        as [err|claims] eqn:D; [discriminate|].
      intros _. apply jwt_decode_accepts_iff in D
        as (j & Hp & _ & Halg & Hsig & Hexp).
      now exists token, j.
    + intros (token & j & -> & Hp & Halg & Hsig & Hexp).
      destruct (String.eqb_spec token "") as [->|_].
      * rewrite parse_compact_empty in Hp. discriminate.
      * now rewrite (@jwt_decode_valid _ token (SECRET_KEY cfg)
                       (ALGORITHM cfg) now j Hp Halg Hsig Hexp).
  - unfold require_login.
    destruct session as [token|]; [|now right].
    destruct (token =? ""); [now right|].
    destruct (jwt_decode _ _ _ _); [now right|now left].
Qed.

(** X5.  A successful [login] is a login of a stored user whose hash
    verified the password: the response carries one cookie, named
    [session], HTTP-only, for path [/], and its value is the token for that
    user's name expiring the configured number of hours after the clock. *)
Theorem login_only_for_verified_user
    (db : DB) (now : datetime) (data : LoginRequest) (resp : LoginResponse) :
  login cfg db now data = inr resp ->
  exists user,
    In user (users db)
    /\ User.username user = lr_username data
    /\ pwd_verify (lr_password data) (User.password_hash user) = true
    /\ resp
       = {| login_body := status_ok;
            login_set_cookie :=
              Some {| cookie_key := "session";
                      cookie_value :=
                        jwt_encode (User.username user)
                          (now + timedelta_hours
                                   (ACCESS_TOKEN_EXPIRE_HOURS cfg))%Z
                          (SECRET_KEY cfg) (ALGORITHM cfg);
                      cookie_httponly := true;
                      cookie_samesite := COOKIE_SAMESITE cfg;
                      cookie_secure := COOKIE_SECURE cfg;
                      cookie_path := "/" |} |}.
Proof.
  unfold login, query_user_first.
  destruct (find _ (users db)) as [user|] eqn:F; [|discriminate].
  apply find_some in F as [Hin Hname]. apply String.eqb_eq in Hname.
  destruct (pwd_verify _ _) eqn:V; [|discriminate]. simpl.
  intros [= <-]. now exists user.
Qed.

(** X6.  The cookie a [login] sets passes [require_login] at every clock
    reading whose whole second is not after the whole second of the login
    plus 3600 times the configured hours, and is turned away with 401 at
    every later one; with zero hours it lasts out the second of the login,
    with a negative number it never passes. *)
Theorem session_cookie_lifetime
    (db : DB) (now now' : datetime) (data : LoginRequest)
    (resp : LoginResponse) (cookie : SetCookie) :
  login cfg db now data = inr resp ->
  login_set_cookie resp = Some cookie ->
  let expiry := (timegm now + 3600 * ACCESS_TOKEN_EXPIRE_HOURS cfg)%Z in
  ((timegm now' <= expiry)%Z ->
     require_login cfg now' (Some (cookie_value cookie)) = inr tt)
  /\ ((expiry < timegm now')%Z ->
        require_login cfg now' (Some (cookie_value cookie))
        = inl (HTTPException_status 401)).
Proof.
  intros Hlogin Hcookie expiry.
  unfold login in Hlogin.
  destruct (query_user_first db (lr_username data)) as [user|];
    [|discriminate].
  destruct (negb _); [discriminate|].
  injection Hlogin as <-. simpl in Hcookie. injection Hcookie as <-. simpl.
  set (token := jwt_encode (User.username user)
                  (now + timedelta_hours (ACCESS_TOKEN_EXPIRE_HOURS cfg))%Z
                  (SECRET_KEY cfg) (ALGORITHM cfg)).
  assert (Hne : (token =? "") = false)
    by apply String.eqb_neq, compact_nonempty.
  unfold require_login. rewrite Hne. unfold token.
  split; intros Hnow.
  - rewrite jwt_decode_encode; [reflexivity|].
    now rewrite timegm_add_hours.
  - unfold jwt_decode, jwt_encode.
    rewrite parse_compact_of_compact. simpl.
    rewrite !String.eqb_refl. simpl.
    rewrite timegm_add_hours.
    fold expiry.
    destruct (Z.ltb_spec expiry (timegm now')) as [_|Hge];
      [reflexivity|lia].
Qed.

End Sessions.

(** ** What holds in every state the program reaches *)

Lemma next_rowid_iota (n : nat) :
  next_rowid (map Z.of_nat (seq 1 n)) = Z.of_nat (S n).
Proof.
  destruct n as [|k]; [reflexivity|].
  assert (H : fold_left Z.max (map Z.of_nat (seq 2 k)) 1%Z
              = Z.of_nat (S k)).
  { induction k as [|k IH]; [reflexivity|].
    rewrite seq_S, map_app, fold_left_app, IH. simpl fold_left. lia. }
  change (next_rowid (map Z.of_nat (seq 1 (S k))))
    with (1 + fold_left Z.max (map Z.of_nat (seq 2 k)) 1)%Z.
  rewrite H. lia.
Qed.

Lemma filter_ids_nodup (keep : Message.t -> bool) (rows : list Message.t) :
  NoDup (map Message.id rows) -> NoDup (map Message.id (filter keep rows)).
Proof.
  induction rows as [|m rows IH]; simpl; intros Hnd; [constructor|].
  apply NoDup_cons_iff in Hnd as [Hm Hnd].
  destruct (keep m); simpl; [|now apply IH].
  constructor; [|now apply IH].
  intros Hin. apply Hm. apply in_map_iff in Hin as [y [Hy Hin]].
  apply in_map_iff. exists y. split; [exact Hy|].
  now apply filter_In in Hin as [Hin _].
Qed.

Lemma startup_tables {P : Passlib} cfg db salt :
  conversations (startup cfg db salt) = conversations db
  /\ messages (startup cfg db salt) = messages db.
Proof.
  destruct (startup_cases cfg db salt)
    as [->|(n & p & _ & _ & _ & _ & _ & ->)]; now split.
Qed.

Lemma three_posts_reachable :
  @reachable salted_passlib sample_cfg three_posts.
Proof.
  unfold three_posts. do 3 apply reachable_post.
  change sample_db with (@startup salted_passlib sample_cfg empty_db "salt").
  apply reachable_startup, reachable_fresh.
Qed.

Lemma reachable_ids_iota {P : Passlib} cfg db :
  reachable cfg db ->
  map Message.id (messages db)
  = map Z.of_nat (seq 1 (List.length (messages db))).
Proof.
  induction 1 as [|db salt Hreach IH|db now cid message Hreach IH].
  - reflexivity.
  - now rewrite (proj2 (startup_tables cfg db salt)).
  - rewrite post_message_messages, post_message_row, map_app, length_app.
    simpl. rewrite Nat.add_1_r, seq_S, map_app, <- IH. simpl.
    now rewrite IH at 2; rewrite next_rowid_iota.
Qed.

Lemma reachable_ids_nodup {P : Passlib} cfg db :
  reachable cfg db -> NoDup (map Message.id (messages db)).
Proof.
  intros Hreach. rewrite (reachable_ids_iota Hreach).
  apply NoDup_map_NoDup_ForallPairs; [|apply seq_NoDup].
  intros a b _ _. apply Nat2Z.inj.
Qed.

(** The tables of every reachable state are in rowid order. *)
Lemma reachable_ids_increasing {P : Passlib} cfg db :
  reachable cfg db -> ids_increasing db.
Proof.
  induction 1 as [|db salt Hreach IH|db now cid message Hreach IH].
  - apply ids_increasing_empty.
  - unfold ids_increasing in *.
    now rewrite (proj2 (startup_tables cfg db salt)).
  - now apply post_message_ids_increasing.
Qed.

Section Reachable.
Context {E : StorageEngine} {P : Passlib} {J : Jose}.
Variable cfg : Config.

(** X7.  In every state the program reaches from a fresh database under
    one configuration, the same for the life of the database, the users
    table is empty or holds one row: the configured admin, with id 1 and a
    hash made from the configured password.  If it holds that row, a login
    with the configured credentials succeeds whenever the configuration
    and the clock are such that the token can be issued ([can_issue]). *)
Theorem reachable_users (db : DB) :
  reachable cfg db ->
  (users db = []
   \/ exists name password salt,
        ADMIN_USERNAME cfg = Some name
        /\ ADMIN_PASSWORD cfg = Some password
        /\ users db = [ {| User.id := 1;
                           User.username := name;
                           User.password_hash := pwd_hash password salt |} ])
  /\ (forall name password now,
        can_issue cfg now ->
        users db <> [] ->
        ADMIN_USERNAME cfg = Some name ->
        ADMIN_PASSWORD cfg = Some password ->
        exists resp,
          login cfg db now {| lr_username := name; lr_password := password |}
          = inr resp).
Proof.
  intros Hreach.
  assert (Hshape :
    users db = []
    \/ exists name password salt,
         ADMIN_USERNAME cfg = Some name
         /\ ADMIN_PASSWORD cfg = Some password
         /\ users db = [ {| User.id := 1;
                            User.username := name;
                            User.password_hash := pwd_hash password salt |} ]).
  { induction Hreach as [|db salt Hreach IH|db now cid message Hreach IH].
    - now left.
    - destruct (startup_cases cfg db salt)
        as [->|(n & p & Hn & Hp & _ & _ & Hq & ->)]; [exact IH|].
      right. exists n, p, salt. split; [exact Hn|]. split; [exact Hp|].
      destruct IH as [Hnil|(n' & p' & salt' & Hn' & _ & Hu)].
      + simpl. now rewrite Hnil.
      + exfalso. rewrite Hn in Hn'. injection Hn' as <-.
        unfold query_user_first in Hq. rewrite Hu in Hq. simpl in Hq.
        now rewrite String.eqb_refl in Hq.
    - now rewrite post_message_users. }
  split; [exact Hshape|].
  intros name password now _ Hne Hn Hp.
  destruct Hshape as [Hnil|(n' & p' & salt' & Hn' & Hp' & Hu)];
    [contradiction|].
  rewrite Hn in Hn'. injection Hn' as <-.
  rewrite Hp in Hp'. injection Hp' as <-.
  eexists. unfold login, query_user_first. rewrite Hu. simpl.
  rewrite String.eqb_refl. simpl. now rewrite pwd_verify_hash.
Qed.

(** X8.  In every state the program reaches from a fresh database the
    message ids are 1, 2, ..., n in the order the messages were posted, and
    no listing shows an id twice. *)
Theorem reachable_message_ids (db : DB) :
  reachable cfg db ->
  map Message.id (messages db)
  = map Z.of_nat (seq 1 (List.length (messages db)))
  /\ (forall cid, NoDup (map out_id (get_messages db cid))).
Proof.
  intros Hreach.
  split; [exact (reachable_ids_iota Hreach)|].
  intros cid.
  pose proof (reachable_ids_nodup Hreach) as Hnd.
  apply (filter_ids_nodup
           (fun m => (Message.conversation_id m =? cid)%Z)) in Hnd.
  unfold get_messages. rewrite map_map. simpl.
  eapply Permutation_NoDup; [|exact Hnd].
  apply Permutation_map, order_by_permutation.
Qed.


End Reachable.

(** ** The order of a listing, for every storage engine *)



(** Rows whose keys strictly increase have one ascending order, their
    own. *)
Lemma ascending_order_unique (rows : list Message.t) :
  StronglySorted created_lt rows ->
  forall sorted,
    Permutation rows sorted -> StronglySorted created_le sorted ->
    sorted = rows.
Proof.
  induction 1 as [|a rest Hrest IH Hall]; intros sorted Hperm Hs.
  - now apply Permutation_nil.
  - destruct sorted as [|b sorted'].
    + apply Permutation_sym, Permutation_nil in Hperm. discriminate.
    + apply StronglySorted_inv in Hs as [Hs' Hb].
      rewrite Forall_forall in Hall, Hb.
      assert (Hba : b = a).
      { assert (Hb_in : In b (a :: rest))
          by (eapply Permutation_in;
              [apply Permutation_sym, Hperm|now left]).
        assert (Ha_in : In a (b :: sorted'))
          by (eapply Permutation_in; [exact Hperm|now left]).
        destruct Hb_in as [Heq|Hb_rest]; [now symmetry|].
        destruct Ha_in as [Heq|Ha_rest]; [exact Heq|].
        apply Hall in Hb_rest. apply Hb in Ha_rest.
        unfold created_le, created_lt in *. lia. }
      subst b. f_equal. apply IH; [|exact Hs'].
      now apply Permutation_cons_inv in Hperm.
Qed.

Section ListingOrder.
Context {E : StorageEngine}.


(** X11.  When the [created_at] of a conversation's messages strictly
    increase in the order they were posted, the listing is in that order. *)
Theorem listing_in_posting_order (db : DB) (cid : Z) :
  StronglySorted created_lt
    (filter (fun m => (Message.conversation_id m =? cid)%Z) (messages db)) ->
  get_messages db cid
  = map message_out
      (filter (fun m => (Message.conversation_id m =? cid)%Z) (messages db)).
Proof.
  intros Hstrict. unfold get_messages. f_equal.
  apply (ascending_order_unique Hstrict).
  - apply order_by_permutation.
  - apply order_by_sorted.
Qed.

End ListingOrder.

(** ** The allowed origins *)

Lemma split_comma_nonempty s : split_comma s <> [].
Proof.
  destruct s as [|c rest]; simpl; [discriminate|].
  destruct (Ascii.eqb c ","%char); [discriminate|].
  destruct (split_comma rest); discriminate.
Qed.

Lemma split_comma_app a b :
  split_comma (a ++ String ","%char b)
  = (split_comma a ++ split_comma b)%list.
Proof.
  induction a as [|c a IH]; simpl; [reflexivity|].
  destruct (Ascii.eqb c ","%char); rewrite IH; [reflexivity|].
  pose proof (split_comma_nonempty a) as Hne.
  destruct (split_comma a); [contradiction|reflexivity].
Qed.

Lemma split_comma_no_comma s : has_comma s = false -> split_comma s = [s].
Proof.
  induction s as [|c rest IH]; simpl; [reflexivity|].
  destruct (Ascii.eqb c ","%char); [discriminate|]. simpl.
  intros H. now rewrite (IH H).
Qed.

Lemma split_comma_pieces s :
  Forall (fun piece => has_comma piece = false) (split_comma s).
Proof.
  induction s as [|c rest IH]; simpl; [now repeat constructor|].
  destruct (Ascii.eqb c ","%char) eqn:C; [now constructor|].
  destruct (split_comma rest) as [|piece pieces].
  - repeat constructor. simpl. now rewrite C.
  - apply Forall_cons_iff in IH as [Hp Hps].
    constructor; [|exact Hps]. simpl. now rewrite C, Hp.
Qed.

Lemma lstrip_no_comma s : has_comma s = false -> has_comma (lstrip s) = false.
Proof.
  induction s as [|c rest IH]; simpl; [reflexivity|].
  intros H. apply orb_false_elim in H as [Hc Hrest].
  destruct (isspace c); [now apply IH|]. simpl. now rewrite Hc, Hrest.
Qed.

Lemma rstrip_no_comma s : has_comma s = false -> has_comma (rstrip s) = false.
Proof.
  induction s as [|c rest IH]; simpl; [reflexivity|].
  intros H. apply orb_false_elim in H as [Hc Hrest].
  specialize (IH Hrest).
  destruct (rstrip rest) as [|k kept].
  - destruct (isspace c); [reflexivity|]. simpl. now rewrite Hc.
  - simpl in *. now rewrite Hc, IH.
Qed.

Lemma lstrip_first s c : first_char (lstrip s) = Some c -> isspace c = false.
Proof.
  induction s as [|a rest IH]; simpl; [discriminate|].
  destruct (isspace a) eqn:Sp; [exact IH|].
  simpl. now intros [= <-].
Qed.

Lemma rstrip_first s c :
  first_char (rstrip s) = Some c -> first_char s = Some c.
Proof.
  destruct s as [|a rest]; simpl; [discriminate|].
  destruct (rstrip rest); [destruct (isspace a); [discriminate|]|]; trivial.
Qed.

Lemma rstrip_last s c : last_char (rstrip s) = Some c -> isspace c = false.
Proof.
  induction s as [|a rest IH]; simpl; [discriminate|].
  destruct (rstrip rest) as [|k kept].
  - destruct (isspace a) eqn:Sp; [discriminate|].
    simpl. now intros [= <-].
  - exact IH.
Qed.

Lemma last_char_some s : s <> "" -> exists c, last_char s = Some c.
Proof.
  induction s as [|a rest IH]; [contradiction|]. intros _.
  destruct rest as [|b rest']; [now exists a|].
  apply IH. discriminate.
Qed.

Lemma strip_trimmed s : strip s <> "" -> trimmed (strip s) = true.
Proof.
  unfold strip, trimmed. intros Hne.
  destruct (last_char_some Hne) as [b Hb]. rewrite Hb.
  destruct (rstrip (lstrip s)) as [|a rest] eqn:R; [contradiction|].
  simpl first_char.
  assert (Ha : first_char (rstrip (lstrip s)) = Some a) by now rewrite R.
  apply rstrip_first, lstrip_first in Ha.
  rewrite <- R in Hb. apply rstrip_last in Hb.
  cbv beta iota. now rewrite Ha, Hb.
Qed.

Lemma rstrip_fixed s c :
  last_char s = Some c -> isspace c = false -> rstrip s = s.
Proof.
  induction s as [|a rest IH]; [discriminate|].
  destruct rest as [|b rest'].
  - simpl. intros [= ->] ->. reflexivity.
  - intros Hlast Hsp.
    change (last_char (String a (String b rest')))
      with (last_char (String b rest')) in Hlast.
    specialize (IH Hlast Hsp).
    change (rstrip (String a (String b rest')))
      with (match rstrip (String b rest') with
            | EmptyString =>
                if isspace a then EmptyString else String a EmptyString
            | kept => String a kept
            end).
    now rewrite IH.
Qed.

Lemma trimmed_strip s : trimmed s = true -> strip s = s /\ s <> "".
Proof.
  unfold trimmed, strip.
  destruct s as [|a rest]; [discriminate|].
  simpl first_char.
  destruct (last_char (String a rest)) as [b|] eqn:L; [|discriminate].
  intros H. apply andb_true_iff in H as [Ha Hb].
  apply negb_true_iff in Ha, Hb.
  split; [|discriminate].
  simpl lstrip. rewrite Ha. exact (rstrip_fixed _ L Hb).
Qed.

(** X12.  Every origin in [CORS_ORIGINS] is a non-empty text with no white
    space at either end and no comma in it; blank pieces of the variable
    are dropped. *)
Theorem cors_origins_are_trimmed (value : option string) :
  Forall (fun origin => trimmed origin = true /\ has_comma origin = false)
         (CORS_ORIGINS value).
Proof.
  unfold CORS_ORIGINS. rewrite Forall_forall. intros origin Hin.
  apply in_map_iff in Hin as [piece [<- Hin]].
  apply filter_In in Hin as [Hin Hne].
  apply negb_true_iff, String.eqb_neq in Hne.
  split; [now apply strip_trimmed|].
  unfold strip. apply rstrip_no_comma, lstrip_no_comma.
  pose proof (split_comma_pieces (getenv value "")) as Hall.
  rewrite Forall_forall in Hall. now apply Hall.
Qed.

Lemma split_comma_concat (origins : list string) :
  Forall (fun origin => has_comma origin = false) origins ->
  origins <> [] ->
  split_comma (String.concat "," origins) = origins.
Proof.
  induction 1 as [|o rest Ho Hrest IH]; [contradiction|].
  intros _. destruct rest as [|o' rest'].
  - simpl. now apply split_comma_no_comma.
  - change (String.concat "," (o :: o' :: rest'))
      with (o ++ String ","%char (String.concat "," (o' :: rest'))).
    rewrite split_comma_app, (split_comma_no_comma _ Ho), IH;
      [reflexivity|discriminate].
Qed.

Lemma strip_keeps_trimmed (origins : list string) :
  Forall (fun origin => trimmed origin = true) origins ->
  map strip (filter (fun o => negb (strip o =? "")) origins) = origins.
Proof.
  induction 1 as [|o rest Ho Hrest IH]; [reflexivity|].
  apply trimmed_strip in Ho as [Hfix Hne]. simpl.
  rewrite Hfix. apply String.eqb_neq in Hne. rewrite Hne. simpl.
  now rewrite Hfix, IH.
Qed.

(** X13.  Origins written to the variable joined by commas are read back
    as they were, provided each is non-empty, has no white space at either
    end and holds no comma. *)
Theorem cors_origins_round_trip (origins : list string) :
  Forall (fun origin => trimmed origin = true /\ has_comma origin = false)
         origins ->
  CORS_ORIGINS (Some (String.concat "," origins)) = origins.
Proof.
  intros Hall. apply Forall_and_inv in Hall as [Htrim Hcomma].
  destruct origins as [|o rest]; [reflexivity|].
  unfold CORS_ORIGINS, getenv.
  rewrite (split_comma_concat Hcomma) by discriminate.
  now apply strip_keeps_trimmed.
Qed.

(** X14.  Joining two values of the variable with a comma joins the lists
    of origins read from them; an unset or empty variable allows none. *)
Theorem cors_origins_of_joined_values (a b : string) :
  CORS_ORIGINS (Some (a ++ "," ++ b))
  = (CORS_ORIGINS (Some a) ++ CORS_ORIGINS (Some b))%list
  /\ CORS_ORIGINS None = [] /\ CORS_ORIGINS (Some "") = [].
Proof.
  split; [|split; reflexivity].
  unfold CORS_ORIGINS, getenv.
  change (a ++ "," ++ b) with (a ++ String ","%char b).
  now rewrite split_comma_app, filter_app, map_app.
Qed.

(** ** Loading the configuration *)








(** ** What a POST leaves alone *)

Lemma NoDup_map_injective_on {A B} (f : A -> B) (l : list A) (x y : A) :
  NoDup (map f l) -> In x l -> In y l -> f x = f y -> x = y.
Proof.
  induction l as [|a l IH]; simpl; intros Hnd Hx Hy Heq; [contradiction|].
  apply NoDup_cons_iff in Hnd as [Ha Hnd].
  destruct Hx as [->|Hx], Hy as [->|Hy].
  - reflexivity.
  - exfalso. apply Ha. rewrite Heq. now apply in_map.
  - exfalso. apply Ha. rewrite <- Heq. now apply in_map.
  - now apply IH.
Qed.

Section PostFrame.
Context {E : StorageEngine} {P : Passlib} {J : Jose}.
Variable cfg : Config.


(** X17.  In every state the program reaches from a fresh database a
    stored message is listed under its own conversation, and its id is
    listed under no other. *)
Theorem message_listed_under_its_conversation (db : DB) (m : Message.t) :
  reachable cfg db ->
  In m (messages db) ->
  In (message_out m) (get_messages db (Message.conversation_id m))
  /\ (forall cid,
        cid <> Message.conversation_id m ->
        ~ In (Message.id m) (map out_id (get_messages db cid))).
Proof.
  intros Hreach Hm. split.
  - eapply Permutation_in; [apply get_messages_permutation|].
    apply in_map, filter_In. split; [exact Hm|apply Z.eqb_refl].
  - intros cid Hne Hin.
    apply in_map_iff in Hin as [o [Hid Ho]].
    apply (Permutation_in o
             (Permutation_sym (get_messages_permutation db cid))) in Ho.
    apply in_map_iff in Ho as [m' [<- Hm']].
    apply filter_In in Hm' as [Hm' Hcid]. apply Z.eqb_eq in Hcid.
    simpl in Hid.
    assert (m' = m)
      by exact (NoDup_map_injective_on Message.id _ _ _
                  (reachable_ids_nodup Hreach) Hm' Hm Hid).
    subst m'. now apply Hne.
Qed.

End PostFrame.

(** ** The further properties at concrete inputs *)

Definition admin_login : LoginRequest :=
  {| lr_username := "admin"; lr_password := "secret" |}.

Definition admin_cookie : SetCookie :=
  {| cookie_key := "session";
     cookie_value := admin_token;
     cookie_httponly := true;
     cookie_samesite := "lax";
     cookie_secure := true;
     cookie_path := "/" |}.

Definition admin_response : LoginResponse :=
  {| login_body := status_ok; login_set_cookie := Some admin_cookie |}.

Lemma admin_login_response :
  @login salted_passlib fields_jose sample_cfg sample_db 5000000 admin_login
  = inr admin_response.
Proof. reflexivity. Qed.

Lemma startup_then_admin_login_witness :
  exists token,
    @login salted_passlib fields_jose sample_cfg
       (@startup salted_passlib sample_cfg empty_db "pepper") 5000000
       admin_login
    = inr {| login_body := status_ok;
             login_set_cookie :=
               Some {| cookie_key := "session";
                       cookie_value := token;
                       cookie_httponly := true;
                       cookie_samesite := "lax";
                       cookie_secure := true;
                       cookie_path := "/" |} |}.
Proof.
  apply (@startup_then_admin_login salted_passlib fields_jose sample_cfg
           empty_db "pepper" "admin" "secret" 5000000).
  - unfold can_issue, representable, hmac_algorithm, samesite_accepted.
    repeat split; try (vm_compute; discriminate); auto.
  - reflexivity.
  - reflexivity.
  - discriminate.
  - discriminate.
  - reflexivity.
Defined.

Lemma login_only_for_verified_user_witness :
  exists user,
    In user (users sample_db) /\ User.username user = "admin"
    /\ @pwd_verify salted_passlib "secret" (User.password_hash user) = true.
Proof.
  destruct (@login_only_for_verified_user salted_passlib fields_jose
              sample_cfg sample_db 5000000 admin_login admin_response
              admin_login_response)
    as (user & Hin & Hname & Hpw & _).
  exists user. split; [exact Hin|]. split; [exact Hname|exact Hpw].
Defined.

Lemma session_cookie_lifetime_witness :
  @require_login fields_jose sample_cfg 3605999999 (Some admin_token)
  = inr tt
  /\ @require_login fields_jose sample_cfg 3606000000 (Some admin_token)
     = inl (HTTPException_status 401).
Proof.
  split.
  - apply (proj1 (@session_cookie_lifetime salted_passlib fields_jose
                    sample_cfg sample_db 5000000 3605999999 admin_login
                    admin_response admin_cookie admin_login_response
                    eq_refl)).
    vm_compute. discriminate.
  - apply (proj2 (@session_cookie_lifetime salted_passlib fields_jose
                    sample_cfg sample_db 5000000 3606000000 admin_login
                    admin_response admin_cookie admin_login_response
                    eq_refl)).
    vm_compute. reflexivity.
Defined.

Lemma reachable_users_witness :
  exists resp,
    @login salted_passlib fields_jose sample_cfg three_posts 9000000
       admin_login
    = inr resp.
Proof.
  apply (proj2 (@reachable_users salted_passlib fields_jose sample_cfg
                  three_posts three_posts_reachable)).
  - unfold can_issue, representable, hmac_algorithm, samesite_accepted.
    repeat split; try (vm_compute; discriminate); auto.
  - discriminate.
  - reflexivity.
  - reflexivity.
Defined.

Lemma reachable_message_ids_witness :
  map Message.id (messages three_posts) = [1; 2; 3]%Z.
Proof.
  exact (proj1 (@reachable_message_ids sqlite_engine salted_passlib
                  sample_cfg three_posts three_posts_reachable)).
Defined.



Lemma listing_in_posting_order_witness :
  @get_messages sqlite_engine three_posts 7
  = [ {| out_id := 1; out_role := "user"; out_content := "first";
         out_created_at := 1000 |};
      {| out_id := 3; out_role := "assistant"; out_content := "second";
         out_created_at := 3000 |} ].
Proof.
  apply (@listing_in_posting_order sqlite_engine three_posts 7).
  simpl. repeat constructor.
Defined.

Lemma cors_origins_round_trip_witness :
  CORS_ORIGINS (Some "https://app.example,http://localhost:3000")
  = ["https://app.example"; "http://localhost:3000"].
Proof.
  apply (@cors_origins_round_trip
           ["https://app.example"; "http://localhost:3000"]).
  repeat constructor.
Defined.

Lemma message_listed_under_its_conversation_witness :
  ~ In 2%Z (map out_id (@get_messages sqlite_engine three_posts 7)).
Proof.
  apply (proj2 (@message_listed_under_its_conversation sqlite_engine
                  salted_passlib sample_cfg three_posts
                  {| Message.id := 2; Message.conversation_id := 8;
                     Message.role := "user"; Message.content := "aside";
                     Message.created_at := 2000 |}
                  three_posts_reachable
                  (or_intror (or_introl eq_refl)))).
  discriminate.
Defined.

